(** * Login page of mentorly-academia: post-login redirect, credential
      submission and Google sign-in (src/pages/Login.tsx)

    The page component has three pieces of behaviour:
    - the [useEffect] that redirects once the auth status is known
      ([loginEffect] below),
    - [handleGoogleSignIn],
    - [onSubmit].

    They are embedded as computations in a small state-and-exception monad
    over the page: the tab's [sessionStorage], the two [useState] cells
    ([isLoading], [error]) and the list of calls made on the outside world
    (storage, router, console, toasts), oldest first. *)

From Stdlib Require Import ZArith Ascii String.
From stdpp Require Import base option list strings gmap.

Local Open Scope string_scope.

(** ** JavaScript strings

    A string is a sequence of code units; the model covers the code units
    0..255 (Basic Latin and Latin-1 Supplement), one [ascii] each. *)
Module JsString.

(** The upper-case letters of that range are A-Z, U+00C0-U+00D6 and
    U+00D8-U+00DE; each one has its lower-case partner 32 places up. *)
Definition is_upper (c : ascii) : bool :=
  let n := N_of_ascii c in
  ((65 <=? n) && (n <=? 90) ||
   (192 <=? n) && (n <=? 222) && negb (n =? 215))%N.

Definition lower_unit (c : ascii) : ascii :=
  if is_upper c then ascii_of_N (N_of_ascii c + 32) else c.

(** [s.toLowerCase()] *)
Fixpoint toLowerCase (s : string) : string :=
  match s with
  | EmptyString => EmptyString
  | String c s' => String (lower_unit c) (toLowerCase s')
  end.

(** [s.includes(t)]: [t] occurs in [s] as a run of consecutive units. *)
Fixpoint includes (s t : string) : bool :=
  String.prefix t s ||
  match s with
  | EmptyString => false
  | String _ s' => includes s' t
  end.

(** Truthiness of a value that is a string or [null]/[undefined]. *)
Definition truthy (v : option string) : bool :=
  match v with
  | Some (String _ _) => true
  | _ => false
  end.

(** Spec wording, "case-insensitive substring match": some run of
    consecutive units of [s] equals [phrase] up to letter case. *)
Definition contains_ci (phrase s : string) : Prop :=
  exists pre mid post : string,
    s = pre +:+ mid +:+ post /\ toLowerCase mid = toLowerCase phrase.

End JsString.

Import JsString.

(** ** What the page sees of its collaborators *)

(** What reading [message] off a thrown value gives, as far as the page
    tells values apart:
    - [Missing]: [undefined], [null] or another falsy value that is not a
      string;
    - [Text s]: the string [s];
    - [NotText]: a truthy value that is not a string and has no
      [toLowerCase] method (a number, [true], a plain object). *)
Inductive JsMessage :=
| Missing
| Text (s : string)
| NotText.

(** A thrown value; [catch (err: any)] receives whatever was thrown:
    - [ThrownNullish]: [null] or [undefined], on which reading a property
      raises a TypeError;
    - [ThrownValue msg]: any other value, [msg] being what [err.message]
      reads. *)
Inductive ThrownError :=
| ThrownNullish
| ThrownValue (msg : JsMessage).

(** The message of a thrown value, when it is a string. *)
Definition message (err : ThrownError) : option string :=
  match err with
  | ThrownValue (Text s) => Some s
  | _ => None
  end.

(** An Error-like object: its [message] is a string, or is missing. *)
Definition error_object (m : option string) : ThrownError :=
  ThrownValue (match m with Some s => Text s | None => Missing end).

(** The thrown values on which the conditions of the catch block can be
    evaluated: [message] can be read and is a string or falsy. *)
Definition readable (err : ThrownError) : bool :=
  match err with
  | ThrownValue Missing | ThrownValue (Text _) => true
  | ThrownNullish | ThrownValue NotText => false
  end.

(** Spec wording: the thrown message contains [phrase], letter case
    aside. *)
Definition message_contains (phrase : string) (err : ThrownError) : Prop :=
  exists m, message err = Some m /\ contains_ci phrase m.

(** How a call ends. *)
Inductive Completion (A : Type) :=
| Normal (a : A)
| Throw (err : ThrownError).
Arguments Normal {A} a.
Arguments Throw {A} err.

(** [useForm<FormData>] *)
Record FormData := { email : string; password : string }.

(** The taxonomy of section 7 of the specification; the source has no such
    type, the kinds are told apart by the inline message they set. *)
Inductive Outcome :=
| Unverified
| BadCredentials
| Rejected
| Unknown
| SocialSignInFailed.

Definition outcome_message (o : Outcome) : string :=
  match o with
  | Unverified =>
      "Please verify your email address by clicking the link sent to your inbox before logging in."
  | BadCredentials => "Invalid email or password. Please try again."
  | Rejected => "Login failed. Please check your credentials."
  | Unknown => "An unexpected error occurred during login."
  | SocialSignInFailed => "Failed to sign in with Google. Please try again."
  end.

Definition all_outcomes : list Outcome :=
  [Unverified; BadCredentials; Rejected; Unknown; SocialSignInFailed].

Section Login.

(** The user object of the auth context; its shape is not used here. *)
Context {User : Type}.

(** [useAuth()]: the ambient status read by the effect. *)
Record AuthStatus := {
  user : option User;
  isAdmin : bool;
  authLoading : bool
}.

(** Calls on the outside world. *)
Inductive event :=
| GetItem (key : string)
| RemoveItem (key : string)
| NavigateTo (to : string) (replace : bool)
| ConsoleLog (msg : string)
| ConsoleLogUser (msg : string) (u : User)
| ConsoleError (msg : string) (err : ThrownError)
| ToastError (msg : string) (duration : option Z).

Record Page := {
  sessionStorage : gmap string string;
  isLoading : bool;
  error : option string;
  trace : list event
}.

Definition M (A : Type) : Type := Page -> Completion A * Page.

Definition ret {A} (a : A) : M A := fun p => (Normal a, p).

Definition bind {A B} (c : M A) (k : A -> M B) : M B :=
  fun p =>
    match c p with
    | (Normal a, p') => k a p'
    | (Throw e, p') => (Throw e, p')
    end.

(** [try { body } catch (err) { handler }] *)
Definition try_catch {A} (body : M A) (handler : ThrownError -> M A) : M A :=
  fun p =>
    match body p with
    | (Normal a, p') => (Normal a, p')
    | (Throw e, p') => handler e p'
    end.

(** [try { body } finally { cleanup }] *)
Definition try_finally {A} (body : M A) (cleanup : M unit) : M A :=
  fun p =>
    match body p with
    | (c, p') =>
        match cleanup p' with
        | (Normal _, p'') => (c, p'')
        | (Throw e, p'') => (Throw e, p'')
        end
    end.

Definition emit (ev : event) : M unit :=
  fun p =>
    (Normal tt,
     {| sessionStorage := sessionStorage p; isLoading := isLoading p;
        error := error p; trace := trace p ++ [ev] |}).

Definition getItem (key : string) : M (option string) :=
  fun p =>
    (Normal (sessionStorage p !! key),
     {| sessionStorage := sessionStorage p; isLoading := isLoading p;
        error := error p; trace := trace p ++ [GetItem key] |}).

Definition removeItem (key : string) : M unit :=
  fun p =>
    (Normal tt,
     {| sessionStorage := delete key (sessionStorage p);
        isLoading := isLoading p; error := error p;
        trace := trace p ++ [RemoveItem key] |}).

Definition setIsLoading (b : bool) : M unit :=
  fun p =>
    (Normal tt,
     {| sessionStorage := sessionStorage p; isLoading := b;
        error := error p; trace := trace p |}).

Definition setError (e : option string) : M unit :=
  fun p =>
    (Normal tt,
     {| sessionStorage := sessionStorage p; isLoading := isLoading p;
        error := e; trace := trace p |}).

(** [await f(...)]: the awaited call ends with [c]. *)
Definition await {A} (c : Completion A) : M A := fun p => (c, p).

(** [throw err] *)
Definition throw {A} (err : ThrownError) : M A := fun p => (Throw err, p).

(** The wording of the TypeError that the engine raises when [message] is
    read off [null] or [undefined], or when a [toLowerCase] that is not a
    function is called; it differs between engines. *)
Variable typeErrorText : ThrownError -> string.

Definition typeError (err : ThrownError) : ThrownError :=
  ThrownValue (Text (typeErrorText err)).

(** The value of an expression over [err], or the TypeError raised while
    evaluating it. *)
Definition evaluate {A} (err : ThrownError) (v : option A) : M A :=
  match v with
  | Some a => ret a
  | None => throw (typeError err)
  end.

(** The collaborators: the router's [navigate] (whether a call goes
    through or throws is up to the router) and the auth provider. *)
Variable navigate_result : string -> bool -> Completion unit.
Variable login : string -> string -> Completion bool.
Variable signInWithGoogle : Completion unit.

Definition navigate (to : string) (replace : bool) : M unit :=
  bind (emit (NavigateTo to replace))
       (fun _ => await (navigate_result to replace)).

Notation "x <- c ;; k" := (bind c (fun x => k))
  (at level 100, c at next level, right associativity).
Notation "c ;; k" := (bind c (fun _ => k))
  (at level 100, right associativity).

(** The body of the redirect [useEffect]. *)
Definition loginEffect (st : AuthStatus) : M unit :=
  if authLoading st then ret tt
  else
    match user st with
    | Some u =>
        emit (ConsoleLogUser "Login useEffect: User detected" u) ;;
        redirectPath <- getItem "postLoginRedirect" ;;
        let navigateTo := "/dashboard" in
        let navigateTo := if isAdmin st then "/admin" else navigateTo in
        navigateTo <-
          (if truthy redirectPath then
             let navigateTo := default "" redirectPath in
             emit (ConsoleLog
                     ("Login useEffect: Found redirect path in sessionStorage: "
                        +:+ navigateTo)) ;;
             removeItem "postLoginRedirect" ;;
             ret navigateTo
           else ret navigateTo) ;;
        emit (ConsoleLog ("Login useEffect: Navigating to " +:+ navigateTo)) ;;
        navigate navigateTo true
    | None => ret tt
    end.

Definition handleGoogleSignIn : M unit :=
  try_catch
    (setError None ;;
     setIsLoading true ;;
     await signInWithGoogle)
    (fun err =>
       setError (Some "Failed to sign in with Google. Please try again.") ;;
       emit (ConsoleError "Google sign-in error:" err) ;;
       setIsLoading false).

(** [err.message && err.message.toLowerCase().includes(phrase)] as a
    condition: whether it holds, or [None] when evaluating it raises a
    TypeError ([err.message] on a nullish [err], [.toLowerCase()] on a
    truthy message that is not a string). *)
Definition message_mentions (err : ThrownError) (phrase : string)
  : option bool :=
  match err with
  | ThrownNullish => None
  | ThrownValue Missing => Some false
  | ThrownValue (Text s) =>
      Some (truthy (Some s) && includes (toLowerCase s) phrase)
  | ThrownValue NotText => None
  end.

Definition onSubmit (data : FormData) : M unit :=
  setIsLoading true ;;
  setError None ;;
  try_finally
    (try_catch
       (loginSuccess <- await (login (email data) (password data)) ;;
        (if negb loginSuccess
         then setError (Some "Login failed. Please check your credentials.")
         else ret tt) ;;
        emit (ConsoleLog "Login submitted, waiting for user state update..."))
       (fun err =>
          emit (ConsoleError "Login error caught:" err) ;;
          unconfirmed <-
            evaluate err (message_mentions err "email not confirmed") ;;
          if unconfirmed then
            setError (Some "Please verify your email address by clicking the link sent to your inbox before logging in.") ;;
            emit (ToastError "Email not verified. Please check your inbox."
                             (Some 6000%Z))
          else
            badCredentials <-
              evaluate err (message_mentions err "invalid login credentials") ;;
            if badCredentials then
              setError (Some "Invalid email or password. Please try again.") ;;
              emit (ToastError "Invalid email or password." None)
            else
              setError (Some "An unexpected error occurred during login.") ;;
              emit (ToastError "Login failed due to an unexpected error."
                               None)))
    (setIsLoading false).

(** *** Observations on a run *)

(** The page after running [c] from [p]. *)
Definition after {A} (c : M A) (p : Page) : Page := snd (c p).

(** The calls [c] made, given that the trace only grows. *)
Definition calls {A} (c : M A) (p : Page) : list event :=
  drop (length (trace p)) (trace (after c p)).

Definition navigations (evs : list event) : list (string * bool) :=
  omap (fun ev => match ev with
                  | NavigateTo to r => Some (to, r)
                  | _ => None
                  end) evs.

Definition is_storage_call (ev : event) : bool :=
  match ev with
  | GetItem _ | RemoveItem _ => true
  | _ => false
  end.

(** Reads and deletes of [sessionStorage], in order. *)
Definition storage_calls (evs : list event) : list event :=
  List.filter is_storage_call evs.

(** The outcome kind whose inline message the page shows. *)
Definition shown_outcome (p : Page) : option Outcome :=
  match error p with
  | None => None
  | Some m => List.find (fun o => String.eqb (outcome_message o) m) all_outcomes
  end.

End Login.

Arguments AuthStatus : clear implicits.
Arguments event : clear implicits.
Arguments Page : clear implicits.

(** ** Sample data used by the closed examples below *)
Module Sample.

Definition hint_key : string := "postLoginRedirect".
Definition action_key : string := "postLoginAction".

(** A tab sent to the login page on its way to an order's checkout, and
    a tab whose hint was written as the empty string. *)
Definition orders : gmap string string :=
  {[ hint_key := "/orders/42"; action_key := "checkout" ]}.
Definition blank_hint : gmap string string := {[ hint_key := "" ]}.

(** A freshly mounted login page over the given [sessionStorage]. *)
Definition fresh (s : gmap string string) : Page unit :=
  {| sessionStorage := s; isLoading := false; error := None; trace := [] |}.

(** A router whose [navigate] returns, and one whose [navigate] throws. *)
Definition router_ok : string -> bool -> Completion unit :=
  fun _ _ => Normal tt.
Definition router_broken : string -> bool -> Completion unit :=
  fun _ _ => Throw (error_object (Some "navigation failed")).

Definition member : AuthStatus unit :=
  {| user := Some tt; isAdmin := false; authLoading := false |}.
Definition admin : AuthStatus unit :=
  {| user := Some tt; isAdmin := true; authLoading := false |}.
Definition member_still_loading : AuthStatus unit :=
  {| user := Some tt; isAdmin := false; authLoading := true |}.
Definition anonymous : AuthStatus unit :=
  {| user := None; isAdmin := false; authLoading := false |}.

Definition form : FormData :=
  {| email := "ada@example.org"; password := "hunter2" |}.

(** Auth providers with a fixed answer. *)
Definition login_returns (b : bool) : string -> string -> Completion bool :=
  fun _ _ => Normal b.
Definition login_throws (m : option string)
  : string -> string -> Completion bool :=
  fun _ _ => Throw (error_object m).

(** An auth provider that throws [null]. *)
Definition login_throws_null : string -> string -> Completion bool :=
  fun _ _ => Throw ThrownNullish.

(** The wording of one engine. *)
Definition engine_text (err : ThrownError) : string :=
  match err with
  | ThrownNullish => "Cannot read properties of null (reading 'message')"
  | ThrownValue _ => "err.message.toLowerCase is not a function"
  end.

Definition both_phrases : string :=
  "Email not confirmed (previously: Invalid login credentials)".

End Sample.

(** ** The rest of the page: what is rendered, and the e-mail pattern *)

(** *** Regular expressions

    The fragment of the pattern language that the page uses: classes of
    code units, concatenation, [*] and [+]. [Never] and [Alt] only arise
    while matching. A pattern anchored by [^] and [$], without flags,
    accepts a string when the whole string is in its language. *)
Module Regex.

Inductive regex :=
| Never
| Eps
| Unit (accept : ascii -> bool)
| Seq (r1 r2 : regex)
| Alt (r1 r2 : regex)
| Star (r : regex).

(** [r+] *)
Definition Plus (r : regex) : regex := Seq r (Star r).

(** The language of a pattern. *)
Inductive Matches : regex -> string -> Prop :=
| MEps : Matches Eps ""
| MUnit accept c : accept c = true -> Matches (Unit accept) (String c "")
| MSeq r1 r2 s1 s2 :
    Matches r1 s1 -> Matches r2 s2 -> Matches (Seq r1 r2) (s1 +:+ s2)
| MAltL r1 r2 s : Matches r1 s -> Matches (Alt r1 r2) s
| MAltR r1 r2 s : Matches r2 s -> Matches (Alt r1 r2) s
| MStarNil r : Matches (Star r) ""
| MStarApp r s1 s2 :
    Matches r s1 -> Matches (Star r) s2 -> Matches (Star r) (s1 +:+ s2).

Fixpoint nullable (r : regex) : bool :=
  match r with
  | Never => false
  | Eps => true
  | Unit _ => false
  | Seq r1 r2 => nullable r1 && nullable r2
  | Alt r1 r2 => nullable r1 || nullable r2
  | Star _ => true
  end.

(** What is left of [r] after reading [c]. *)
Fixpoint deriv (c : ascii) (r : regex) : regex :=
  match r with
  | Never => Never
  | Eps => Never
  | Unit accept => if accept c then Eps else Never
  | Seq r1 r2 =>
      if nullable r1 then Alt (Seq (deriv c r1) r2) (deriv c r2)
      else Seq (deriv c r1) r2
  | Alt r1 r2 => Alt (deriv c r1) (deriv c r2)
  | Star r1 => Seq (deriv c r1) (Star r1)
  end.

(** [/^r$/.test(s)] *)
Fixpoint test (r : regex) (s : string) : bool :=
  match s with
  | EmptyString => nullable r
  | String c s' => test (deriv c r) s'
  end.

End Regex.

Import Regex.

(** [\s] on the code units 0..255: TAB, LF, VT, FF, CR, space and the
    no-break space U+00A0. *)
Definition is_space (c : ascii) : bool :=
  let n := N_of_ascii c in
  ((9 <=? n) && (n <=? 13) || (n =? 32) || (n =? 160))%N.

(** [[^\s@]] *)
Definition not_space_or_at (c : ascii) : bool :=
  negb (is_space c || Ascii.eqb c "@").

(** The [pattern] rule of the e-mail field,
    [/^[^\s@]+@[^\s@]+\.[^\s@]+$/]. *)
Definition email_pattern : regex :=
  Seq (Plus (Unit not_space_or_at))
      (Seq (Unit (Ascii.eqb "@"))
           (Seq (Plus (Unit not_space_or_at))
                (Seq (Unit (Ascii.eqb "."))
                     (Plus (Unit not_space_or_at))))).

Definition email_pattern_test (s : string) : bool := test email_pattern s.

(** Every code unit of [s] satisfies [accept]. *)
Fixpoint all_units (accept : ascii -> bool) (s : string) : bool :=
  match s with
  | EmptyString => true
  | String c s' => accept c && all_units accept s'
  end.

(** How often the code unit [c] occurs in [s]. *)
Fixpoint count_unit (c : ascii) (s : string) : nat :=
  match s with
  | EmptyString => 0
  | String d s' => (if Ascii.eqb c d then 1 else 0) + count_unit c s'
  end.

Section Render.

Context {User : Type}.

(** The parts of the rendered page that depend on the two state cells:
    the [disabled] attribute of the Google button, of the two inputs and
    of the submit button, the spinner and the label of the submit button,
    and the alert. *)
Record View := {
  googleDisabled : bool;
  emailDisabled : bool;
  passwordDisabled : bool;
  submitDisabled : bool;
  submitSpinner : bool;
  submitLabel : string;
  alert : option string
}.

(** The [return (...)] of the component. *)
Definition render (p : Page User) : View :=
  {| googleDisabled := isLoading p;
     emailDisabled := isLoading p;
     passwordDisabled := isLoading p;
     submitDisabled := isLoading p;
     submitSpinner := if isLoading p then true else false;
     submitLabel := if isLoading p then "Signing in..." else "Sign in";
     alert := if truthy (error p) then error p else None |}.

(** The toasts among the calls, in order. *)
Definition toasts (evs : list (event User)) : list string :=
  omap (fun ev => match ev with
                  | ToastError msg _ => Some msg
                  | _ => None
                  end) evs.

End Render.

(** More sample data. *)
Module Sample2.

(** A page that still shows the message of an earlier failed attempt. *)
Definition after_failure : Page unit :=
  {| sessionStorage := Sample.orders; isLoading := false;
     error := Some "Invalid email or password. Please try again.";
     trace := [] |}.

Definition shouting : string := "AuthApiError: EMAIL NOT CONFIRMED".
Definition whispering : string := "authapierror: email not confirmed".

End Sample2.

(** ** Facts about the string operations *)
Section StringFacts.

Lemma toLowerCase_app (a b : string) :
  toLowerCase (a +:+ b) = toLowerCase a +:+ toLowerCase b.
Proof.
  induction a as [|c a IH]; simpl; [reflexivity|]. now rewrite IH.
Qed.

(** A split of the lowered string comes from a split of the string. *)
Lemma toLowerCase_split (s a b : string) :
  toLowerCase s = a +:+ b ->
  exists a' b', s = a' +:+ b' /\ toLowerCase a' = a /\ toLowerCase b' = b.
Proof.
  revert s. induction a as [|c a IH]; intros s H.
  - exists EmptyString, s. auto.
  - destruct s as [|d s]; simpl in H; [discriminate|].
    injection H as Hc Hs.
    destruct (IH _ Hs) as (a' & b' & -> & Ha & Hb).
    exists (String d a'), b'. simpl. now rewrite Hc, Ha.
Qed.

Lemma prefix_app (t s : string) :
  String.prefix t s = true <-> exists post, s = t +:+ post.
Proof.
  revert s. induction t as [|c t IH]; intros s.
  - split; [intros _; now exists s | intros _; now destruct s].
  - destruct s as [|d s].
    + split; [discriminate | intros [post H]; discriminate].
    + change (String.prefix (String c t) (String d s))
        with (if Ascii.ascii_dec c d then String.prefix t s else false).
      destruct (Ascii.ascii_dec c d) as [->|Hne].
      * rewrite IH. split; intros [post H]; exists post.
        -- simpl. now rewrite H.
        -- now injection H.
      * split; [discriminate|]. intros [post H]. injection H as H1 _.
        congruence.
Qed.

(** [includes] finds exactly the occurrences of [t] inside [s]. *)
Lemma includes_occurs (s t : string) :
  includes s t = true <-> exists pre post, s = pre +:+ t +:+ post.
Proof.
  induction s as [|c s IH].
  - cbn [includes]. rewrite orb_false_r, prefix_app. split.
    + intros [post H]. now exists EmptyString, post.
    + intros (pre & post & H). destruct pre; [|discriminate].
      now exists post.
  - cbn [includes]. rewrite orb_true_iff, prefix_app, IH. split.
    + intros [[post H] | (pre & post & H)].
      * now exists EmptyString, post.
      * exists (String c pre), post. simpl. now rewrite H.
    + intros (pre & post & H). destruct pre as [|d pre].
      * left. now exists post.
      * right. injection H as _ H. now exists pre, post.
Qed.

(** The source's test, [s.toLowerCase().includes(phrase)] with a
    lower-case [phrase], is the case-insensitive match of the spec. *)
Lemma includes_lower_contains_ci (phrase s : string) :
  toLowerCase phrase = phrase ->
  includes (toLowerCase s) phrase = true <-> contains_ci phrase s.
Proof.
  intros Hlow. rewrite includes_occurs. unfold contains_ci. split.
  - intros (pre & post & H).
    apply toLowerCase_split in H as (pre' & rest & -> & _ & H).
    apply toLowerCase_split in H as (mid' & post' & -> & Hm & _).
    exists pre', mid', post'. split; [reflexivity | congruence].
  - intros (pre & mid & post & -> & H).
    exists (toLowerCase pre), (toLowerCase post).
    rewrite !toLowerCase_app. congruence.
Qed.

Lemma contains_ci_nonempty (phrase s : string) :
  phrase <> "" -> contains_ci phrase s -> s <> "".
Proof.
  intros Hne (pre & mid & post & -> & H) E.
  destruct pre; [|discriminate]. destruct mid; [|discriminate].
  destruct phrase; [congruence | discriminate].
Qed.

End StringFacts.

(** ** The redirect effect *)
Section RedirectFacts.

Context {User : Type}.
Variable navigate_result : string -> bool -> Completion unit.

Implicit Types (st : AuthStatus User) (p : Page User) (u : User).

Lemma calls_grow {A} (c : M A) p (evs : list (event User)) :
  trace (after c p) = (trace p ++ evs)%list -> calls c p = evs.
Proof.
  intros H. unfold calls. rewrite H. apply drop_app_length.
Qed.

(** While loading, or without a user, the effect is a no-op. *)
Lemma loginEffect_idle st p :
  authLoading st = true \/ user st = None ->
  loginEffect navigate_result st p = (Normal tt, p).
Proof.
  intros [H | H]; unfold loginEffect; rewrite H; [reflexivity|].
  now destruct (authLoading st).
Qed.

(** What one run does for a signed-in user, by the value read. *)
Lemma loginEffect_user_run st u p :
  authLoading st = false -> user st = Some u ->
  let s := sessionStorage p in
  let fallback := if isAdmin st then "/admin" else "/dashboard" in
  loginEffect navigate_result st p =
    match s !! "postLoginRedirect" with
    | Some (String c h) =>
        let to := String c h in
        (navigate_result to true,
         {| sessionStorage := delete "postLoginRedirect" s;
            isLoading := isLoading p; error := error p;
            trace := trace p ++
              [ConsoleLogUser "Login useEffect: User detected" u;
               GetItem "postLoginRedirect";
               ConsoleLog ("Login useEffect: Found redirect path in sessionStorage: " +:+ to);
               RemoveItem "postLoginRedirect";
               ConsoleLog ("Login useEffect: Navigating to " +:+ to);
               NavigateTo to true] |})
    | _ =>
        (navigate_result fallback true,
         {| sessionStorage := s;
            isLoading := isLoading p; error := error p;
            trace := trace p ++
              [ConsoleLogUser "Login useEffect: User detected" u;
               GetItem "postLoginRedirect";
               ConsoleLog ("Login useEffect: Navigating to " +:+ fallback);
               NavigateTo fallback true] |})
    end.
Proof.
  intros Hl Hu. unfold loginEffect. rewrite Hl, Hu.
  unfold bind, navigate, bind, emit, getItem, removeItem, ret, await.
  cbn [sessionStorage isLoading error trace].
  destruct (sessionStorage p !! "postLoginRedirect") as [[|c h]|];
    cbn [truthy default id sessionStorage isLoading error trace];
    rewrite <- ?app_assoc; reflexivity.
Qed.

(** The calls and the storage of one run for a signed-in user. *)
Ltac run_for st u p Hl Hu R :=
  pose proof (loginEffect_user_run st u p Hl Hu) as R; cbv zeta in R.

Ltac settle R :=
  repeat split;
  try (unfold after; rewrite R; reflexivity);
  try (erewrite calls_grow by (unfold after; rewrite R; reflexivity);
       reflexivity).

(** C3. While the auth status is loading (whatever user and isAdmin are),
    and when loading is over with no user, the effect navigates nowhere
    and neither reads nor deletes anything in sessionStorage; the page is
    left as it was. *)
Theorem loginEffect_waits st p :
  authLoading st = true \/ (user st = None /\ authLoading st = false) ->
  navigations (calls (loginEffect navigate_result st) p) = [] /\
  storage_calls (calls (loginEffect navigate_result st) p) = [] /\
  loginEffect navigate_result st p = (Normal tt, p).
Proof.
  intros H.
  assert (R : loginEffect navigate_result st p = (Normal tt, p))
    by (apply loginEffect_idle; tauto).
  assert (C : calls (loginEffect navigate_result st) p = [])
    by (unfold calls, after; rewrite R; apply drop_all).
  now rewrite C.
Qed.

(** C4. Loading over, user present, no hint stored: exactly one
    navigation, with replace = true, to /admin for an admin and to
    /dashboard otherwise. *)
Theorem default_target_without_hint st u p :
  authLoading st = false -> user st = Some u ->
  sessionStorage p !! "postLoginRedirect" = None ->
  navigations (calls (loginEffect navigate_result st) p) =
    [(if isAdmin st then "/admin" else "/dashboard", true)].
Proof.
  intros Hl Hu Hk. run_for st u p Hl Hu R. rewrite Hk in R. settle R.
Qed.

(** C1, as amended. Loading over and user present: the key
    postLoginRedirect is read. Unless the value read is the empty string
    (the key is absent or holds a non-empty hint), the key is absent from
    sessionStorage after the run, and when a non-empty hint was stored the
    delete is the storage call right after the read. An empty-string value
    is read but not deleted: the read is the only storage call and the
    entry is still there. All of this holds for every router, so whether
    navigate returns or throws. *)
Theorem hint_cleared_unless_empty st u p :
  authLoading st = false -> user st = Some u ->
  In (GetItem "postLoginRedirect")
     (calls (loginEffect navigate_result st) p) /\
  (sessionStorage p !! "postLoginRedirect" <> Some "" ->
   sessionStorage (after (loginEffect navigate_result st) p)
     !! "postLoginRedirect" = None) /\
  (forall hint, sessionStorage p !! "postLoginRedirect" = Some hint ->
   hint <> "" ->
   storage_calls (calls (loginEffect navigate_result st) p) =
     [GetItem "postLoginRedirect"; RemoveItem "postLoginRedirect"]) /\
  (sessionStorage p !! "postLoginRedirect" = Some "" ->
   storage_calls (calls (loginEffect navigate_result st) p) =
     [GetItem "postLoginRedirect"] /\
   sessionStorage (after (loginEffect navigate_result st) p)
     !! "postLoginRedirect" = Some "").
Proof.
  intros Hl Hu. run_for st u p Hl Hu R.
  destruct (sessionStorage p !! "postLoginRedirect") as [[|c h]|] eqn:E.
  - split; [|split; [|split]].
    + erewrite calls_grow by (unfold after; rewrite R; reflexivity).
      simpl. tauto.
    + congruence.
    + intros hint [= <-]. congruence.
    + intros _. split; [settle R|]. unfold after. rewrite R. exact E.
  - split; [|split; [|split]].
    + erewrite calls_grow by (unfold after; rewrite R; reflexivity).
      simpl. tauto.
    + intros _. unfold after. rewrite R. apply lookup_delete_eq.
    + intros hint _ _. settle R.
    + discriminate.
  - split; [|split; [|split]].
    + erewrite calls_grow by (unfold after; rewrite R; reflexivity).
      simpl. tauto.
    + intros _. unfold after. rewrite R. exact E.
    + discriminate.
    + discriminate.
Qed.

(** C2, as amended. Loading over, user present, a non-empty hint stored:
    exactly one navigation, to the hint, with replace = true; the hint key
    is absent afterwards; postLoginAction (like every other key) is as
    before. *)
Theorem stored_hint_wins st u p (hint : string) :
  authLoading st = false -> user st = Some u ->
  sessionStorage p !! "postLoginRedirect" = Some hint -> hint <> "" ->
  navigations (calls (loginEffect navigate_result st) p) = [(hint, true)] /\
  sessionStorage (after (loginEffect navigate_result st) p)
    !! "postLoginRedirect" = None /\
  sessionStorage (after (loginEffect navigate_result st) p)
    !! "postLoginAction" = sessionStorage p !! "postLoginAction" /\
  (forall k, k <> "postLoginRedirect" ->
     sessionStorage (after (loginEffect navigate_result st) p) !! k
     = sessionStorage p !! k).
Proof.
  intros Hl Hu Hk Hne. run_for st u p Hl Hu R. rewrite Hk in R.
  destruct hint as [|c h]; [congruence|].
  split; [settle R|].
  unfold after. rewrite R. cbn [snd sessionStorage].
  split; [apply lookup_delete_eq|].
  split; [now apply lookup_delete_ne|].
  intros k Hkne. now apply lookup_delete_ne.
Qed.

(** C9. Loading over, user present, the empty string stored under
    postLoginRedirect: the navigation is the role-based default, the key
    is read but not deleted, storage is unchanged (the empty entry
    stays), and the calls and the completion are those of a run over any
    page that lacks the key. *)
Theorem empty_hint_like_absent st u p :
  authLoading st = false -> user st = Some u ->
  sessionStorage p !! "postLoginRedirect" = Some "" ->
  navigations (calls (loginEffect navigate_result st) p) =
    [(if isAdmin st then "/admin" else "/dashboard", true)] /\
  storage_calls (calls (loginEffect navigate_result st) p) =
    [GetItem "postLoginRedirect"] /\
  sessionStorage (after (loginEffect navigate_result st) p)
    = sessionStorage p /\
  sessionStorage (after (loginEffect navigate_result st) p)
    !! "postLoginRedirect" = Some "" /\
  (forall p', sessionStorage p' !! "postLoginRedirect" = None ->
     calls (loginEffect navigate_result st) p'
       = calls (loginEffect navigate_result st) p /\
     fst (loginEffect navigate_result st p')
       = fst (loginEffect navigate_result st p)).
Proof.
  intros Hl Hu Hk. run_for st u p Hl Hu R. rewrite Hk in R.
  split; [settle R|]. split; [settle R|]. split; [settle R|].
  split; [unfold after; rewrite R; exact Hk|].
  intros p' Hk'. run_for st u p' Hl Hu R'. rewrite Hk' in R'.
  split.
  - erewrite !calls_grow by (unfold after; rewrite ?R, ?R'; reflexivity).
    reflexivity.
  - now rewrite R, R'.
Qed.

End RedirectFacts.

(** ** The two handlers *)
Section HandlerFacts.

Context {User : Type}.
Variable typeErrorText : ThrownError -> string.

Implicit Types (p : Page User) (err : ThrownError) (data : FormData).
Implicit Types (login : string -> string -> Completion bool).

(** The guard of the source, [err.message && ...includes(phrase)], against
    the wording of the spec. *)
Lemma message_mentions_spec err (phrase : string) :
  phrase <> "" -> toLowerCase phrase = phrase ->
  message_mentions err phrase = Some true <-> message_contains phrase err.
Proof.
  intros Hne Hlow. unfold message_contains.
  destruct err as [|[|m|]]; cbn [message_mentions message].
  - split; [discriminate|]. now intros (m & [=] & _).
  - split; [discriminate|]. now intros (m & [=] & _).
  - destruct m as [|c m]; cbn [truthy andb].
    + split; [discriminate|]. intros (m & [= <-] & H).
      now apply contains_ci_nonempty in H.
    + split.
      * intros H. exists (String c m). split; [reflexivity|].
        apply includes_lower_contains_ci; [exact Hlow | congruence].
      * intros (m' & [= <-] & H). f_equal.
        now apply includes_lower_contains_ci.
  - split; [discriminate|]. now intros (m & [=] & _).
Qed.

Lemma mentions_unconfirmed err :
  message_mentions err "email not confirmed" = Some true
  <-> message_contains "email not confirmed" err.
Proof. now apply message_mentions_spec. Qed.

Lemma mentions_bad_credentials err :
  message_mentions err "invalid login credentials" = Some true
  <-> message_contains "invalid login credentials" err.
Proof. now apply message_mentions_spec. Qed.

(** The conditions can be evaluated exactly on the readable values. *)
Lemma message_mentions_readable err (phrase : string) :
  message_mentions err phrase =
    if readable err
    then Some (truthy (message err) &&
               includes (toLowerCase (default "" (message err))) phrase)
    else None.
Proof. now destruct err as [|[|m|]]. Qed.

(** One submission whose [login] call returns. *)
Lemma onSubmit_returned login data p (b : bool) :
  login (email data) (password data) = Normal b ->
  onSubmit typeErrorText login data p =
    (Normal tt,
     {| sessionStorage := sessionStorage p;
        isLoading := false;
        error := if b then None
                 else Some "Login failed. Please check your credentials.";
        trace := trace p ++
          [ConsoleLog "Login submitted, waiting for user state update..."]
     |}).
Proof.
  intros H. unfold onSubmit, try_finally, try_catch, bind, await.
  rewrite H. now destruct b.
Qed.

(** One submission whose [login] call throws a value on which the
    conditions of the catch block evaluate to [a] and [b]. *)
Lemma onSubmit_thrown login data p err (a b : bool) :
  login (email data) (password data) = Throw err ->
  message_mentions err "email not confirmed" = Some a ->
  message_mentions err "invalid login credentials" = Some b ->
  onSubmit typeErrorText login data p =
    (Normal tt,
     {| sessionStorage := sessionStorage p;
        isLoading := false;
        error := Some
          (if a then outcome_message Unverified
           else if b then outcome_message BadCredentials
                else outcome_message Unknown);
        trace := trace p ++
          [ConsoleError "Login error caught:" err;
           if a
           then ToastError "Email not verified. Please check your inbox."
                           (Some 6000%Z)
           else if b
                then ToastError "Invalid email or password." None
                else ToastError "Login failed due to an unexpected error."
                                None]
     |}).
Proof.
  intros H Ha Hb.
  unfold onSubmit, try_finally, try_catch, bind, await, emit,
    setIsLoading, setError.
  rewrite H. cbn [sessionStorage isLoading error trace].
  rewrite Ha. unfold evaluate at 1. unfold ret at 1.
  destruct a.
  - cbn [sessionStorage isLoading error trace].
    rewrite <- ?app_assoc. reflexivity.
  - rewrite Hb. unfold evaluate, ret. destruct b;
      cbn [sessionStorage isLoading error trace];
      rewrite <- ?app_assoc; reflexivity.
Qed.

(** One submission whose [login] call throws a value on which the first
    condition of the catch block cannot be evaluated: the catch block
    itself throws, after its console call and before any message or
    toast; the [finally] block still runs. *)
Lemma onSubmit_thrown_unreadable login data p err :
  login (email data) (password data) = Throw err ->
  readable err = false ->
  onSubmit typeErrorText login data p =
    (Throw (typeError typeErrorText err),
     {| sessionStorage := sessionStorage p;
        isLoading := false;
        error := None;
        trace := trace p ++ [ConsoleError "Login error caught:" err] |}).
Proof.
  intros H Hr.
  unfold onSubmit, try_finally, try_catch, bind, await, emit,
    setIsLoading, setError.
  rewrite H. cbn [sessionStorage isLoading error trace].
  rewrite message_mentions_readable, Hr. reflexivity.
Qed.

(** The two ways a submission whose [login] call throws can go. *)
Lemma onSubmit_thrown_cases login data p err :
  login (email data) (password data) = Throw err ->
  (readable err = true /\
   exists a b,
     message_mentions err "email not confirmed" = Some a /\
     message_mentions err "invalid login credentials" = Some b /\
     onSubmit typeErrorText login data p =
       (Normal tt,
        {| sessionStorage := sessionStorage p;
           isLoading := false;
           error := Some
             (if a then outcome_message Unverified
              else if b then outcome_message BadCredentials
                   else outcome_message Unknown);
           trace := trace p ++
             [ConsoleError "Login error caught:" err;
              if a
              then ToastError "Email not verified. Please check your inbox."
                              (Some 6000%Z)
              else if b
                   then ToastError "Invalid email or password." None
                   else ToastError "Login failed due to an unexpected error."
                                   None]
        |})) \/
  (readable err = false /\
   onSubmit typeErrorText login data p =
     (Throw (typeError typeErrorText err),
      {| sessionStorage := sessionStorage p;
         isLoading := false;
         error := None;
         trace := trace p ++ [ConsoleError "Login error caught:" err] |})).
Proof.
  intros H. destruct (readable err) eqn:Hr.
  - left. split; [reflexivity|].
    pose proof (message_mentions_readable err "email not confirmed") as Ha.
    pose proof (message_mentions_readable err "invalid login credentials")
      as Hb.
    rewrite Hr in Ha, Hb. eexists. eexists.
    split; [exact Ha|]. split; [exact Hb|].
    exact (onSubmit_thrown login data p err _ _ H Ha Hb).
  - right. split; [reflexivity|].
    now apply onSubmit_thrown_unreadable.
Qed.

(** C7. Every submission whose login call settles, returning true,
    returning false or throwing any value at all, leaves the busy flag
    cleared, whatever the page was before: also when the catch block
    itself throws (on a thrown value whose message cannot be read or is a
    truthy non-string) and the submission ends by throwing the TypeError,
    the cleanup has run. *)
Theorem onSubmit_always_clears_busy login data p :
  isLoading (after (onSubmit typeErrorText login data) p) = false /\
  fst (onSubmit typeErrorText login data p) =
    match login (email data) (password data) with
    | Normal _ => Normal tt
    | Throw err =>
        if readable err then Normal tt
        else Throw (typeError typeErrorText err)
    end.
Proof.
  unfold after.
  destruct (login (email data) (password data)) as [b|err] eqn:H.
  - now rewrite (onSubmit_returned login data p b H).
  - destruct (onSubmit_thrown_cases login data p err H)
      as [(Hr & a & b & _ & _ & R) | (Hr & R)]; now rewrite R, Hr.
Qed.

(** C6. When login returns false without throwing, the inline message is
    "Login failed. Please check your credentials." and the outcome shown
    is Rejected; a submission whose login throws an error containing
    "invalid login credentials" shows another message and another
    outcome. *)
Theorem false_return_is_rejected login data p :
  login (email data) (password data) = Normal false ->
  let q := after (onSubmit typeErrorText login data) p in
  error q = Some "Login failed. Please check your credentials." /\
  shown_outcome q = Some Rejected /\
  Rejected <> BadCredentials /\
  (forall login' data' (p' : Page User) err,
     login' (email data') (password data') = Throw err ->
     message_contains "invalid login credentials" err ->
     let q' := after (onSubmit typeErrorText login' data') p' in
     error q' <> error q /\ shown_outcome q' <> shown_outcome q).
Proof.
  intros H q. subst q. unfold after.
  rewrite (onSubmit_returned login data p false H). cbn [snd error].
  split; [reflexivity|]. split; [reflexivity|]. split; [discriminate|].
  intros login' data' p' err H' C.
  apply mentions_bad_credentials in C.
  destruct (onSubmit_thrown_cases login' data' p' err H')
    as [(_ & a & b & _ & _ & R) | (Hr & _)].
  - rewrite R. cbn [snd error].
    destruct a; [|destruct b]; split; discriminate.
  - rewrite message_mentions_readable, Hr in C. discriminate.
Qed.

(** C5, as amended. When login throws: a message containing "email not
    confirmed" shows Unverified; a message containing "invalid login
    credentials" and not "email not confirmed" shows BadCredentials with
    the inline message "Invalid email or password. Please try again.";
    a thrown value whose message can be read and is a string with neither
    phrase, or is falsy, shows Unknown. Whatever is thrown, the busy flag
    ends cleared and the handler makes no navigation call. Containment is
    letter-case blind. *)
Theorem thrown_login_classified login data p err :
  login (email data) (password data) = Throw err ->
  let q := after (onSubmit typeErrorText login data) p in
  (message_contains "email not confirmed" err ->
   shown_outcome q = Some Unverified) /\
  (message_contains "invalid login credentials" err ->
   ~ message_contains "email not confirmed" err ->
   shown_outcome q = Some BadCredentials /\
   error q = Some "Invalid email or password. Please try again.") /\
  (readable err = true ->
   ~ message_contains "email not confirmed" err ->
   ~ message_contains "invalid login credentials" err ->
   shown_outcome q = Some Unknown) /\
  isLoading q = false /\
  navigations (calls (onSubmit typeErrorText login data) p) = [].
Proof.
  intros H q. subst q. unfold calls, after.
  rewrite <- mentions_unconfirmed, <- mentions_bad_credentials.
  destruct (onSubmit_thrown_cases login data p err H)
    as [(Hr & a & b & Ha & Hb & R) | (Hr & R)]; rewrite R.
  - cbn [snd isLoading error trace]. rewrite drop_app_length, Ha, Hb.
    destruct a; [|destruct b];
      repeat split; try reflexivity; intros; congruence.
  - cbn [snd isLoading error trace]. rewrite drop_app_length.
    rewrite !message_mentions_readable, Hr.
    repeat split; try reflexivity; intros; congruence.
Qed.

(** C10. When login throws an error whose message contains both "email
    not confirmed" and "invalid login credentials", the Unverified branch
    is the one taken: the inline message and the toast are the
    email-verification ones, not the invalid-credentials ones. *)
Theorem unconfirmed_takes_precedence login data p err :
  login (email data) (password data) = Throw err ->
  message_contains "email not confirmed" err ->
  message_contains "invalid login credentials" err ->
  let q := after (onSubmit typeErrorText login data) p in
  shown_outcome q = Some Unverified /\
  error q = Some "Please verify your email address by clicking the link sent to your inbox before logging in." /\
  error q <> Some "Invalid email or password. Please try again." /\
  calls (onSubmit typeErrorText login data) p =
    [ConsoleError "Login error caught:" err;
     ToastError "Email not verified. Please check your inbox."
                (Some 6000%Z)].
Proof.
  intros H HA HB q. subst q. unfold calls, after.
  apply mentions_unconfirmed in HA. apply mentions_bad_credentials in HB.
  rewrite (onSubmit_thrown login data p err true true H HA HB).
  cbn [snd isLoading error trace]. rewrite drop_app_length.
  repeat split; try reflexivity. discriminate.
Qed.

(** C8. Google sign-in: when the provider call throws, the generic
    failure message is shown and the busy flag is set to false; when it
    returns, the busy flag is left set to true and no message is shown. *)
Theorem google_sign_in_busy_flag err p :
  (let q := after (handleGoogleSignIn (Throw err)) p in
   error q = Some "Failed to sign in with Google. Please try again." /\
   shown_outcome q = Some SocialSignInFailed /\
   isLoading q = false) /\
  (let q := after (handleGoogleSignIn (Normal tt)) p in
   error q = None /\ isLoading q = true).
Proof. repeat split. Qed.

End HandlerFacts.

(** ** The theorems at concrete pages *)
Section Examples.

Import Sample.

Lemma loginEffect_waits_example :
  authLoading member_still_loading = true /\
  navigations (calls (loginEffect router_ok member_still_loading)
                     (fresh orders)) = [] /\
  storage_calls (calls (loginEffect router_ok member_still_loading)
                       (fresh orders)) = [].
Proof.
  split; [reflexivity|].
  destruct (loginEffect_waits router_ok member_still_loading (fresh orders))
    as (Hn & Hs & _); [left; reflexivity|].
  now split.
Defined.

Lemma default_target_without_hint_example :
  navigations (calls (loginEffect router_ok admin) (fresh ∅))
    = [("/admin", true)].
Proof.
  apply (default_target_without_hint router_ok admin tt (fresh ∅));
    reflexivity.
Defined.

Lemma hint_cleared_unless_empty_example :
  sessionStorage (fresh orders) !! "postLoginRedirect" <> Some "" /\
  sessionStorage (after (loginEffect router_broken member) (fresh orders))
    !! "postLoginRedirect" = None /\
  storage_calls (calls (loginEffect router_broken member) (fresh blank_hint))
    = [GetItem "postLoginRedirect"].
Proof.
  assert (H : sessionStorage (fresh orders) !! "postLoginRedirect" <> Some "")
    by (vm_compute; discriminate).
  split; [exact H|]. split.
  - exact (proj1 (proj2 (hint_cleared_unless_empty router_broken member tt
                           (fresh orders) eq_refl eq_refl)) H).
  - exact (proj1 (proj2 (proj2 (proj2
             (hint_cleared_unless_empty router_broken member tt
                (fresh blank_hint) eq_refl eq_refl))) eq_refl)).
Defined.

Lemma stored_hint_wins_example :
  navigations (calls (loginEffect router_ok admin) (fresh orders))
    = [("/orders/42", true)] /\
  sessionStorage (after (loginEffect router_ok admin) (fresh orders))
    !! "postLoginAction" = Some "checkout".
Proof.
  destruct (stored_hint_wins router_ok admin tt (fresh orders) "/orders/42")
    as (Hn & _ & Ha & _);
    [reflexivity | reflexivity | reflexivity | discriminate |].
  split; [exact Hn|]. rewrite Ha. reflexivity.
Defined.

Lemma empty_hint_like_absent_example :
  navigations (calls (loginEffect router_ok admin)
                     (fresh blank_hint)) = [("/admin", true)] /\
  sessionStorage (after (loginEffect router_ok admin)
                        (fresh blank_hint))
    !! "postLoginRedirect" = Some "".
Proof.
  destruct (empty_hint_like_absent router_ok admin tt
              (fresh blank_hint))
    as (Hn & _ & _ & Hk & _); [reflexivity | reflexivity | reflexivity |].
  now split.
Defined.

Lemma false_return_is_rejected_example :
  shown_outcome (after (onSubmit engine_text (login_returns false) form)
                       (fresh ∅))
    = Some Rejected.
Proof.
  exact (proj1 (proj2 (false_return_is_rejected engine_text
                         (login_returns false) form (fresh ∅) eq_refl))).
Defined.

Lemma thrown_login_classified_example :
  shown_outcome
    (after (onSubmit engine_text
              (login_throws (Some "Invalid login credentials")) form)
           (fresh ∅))
    = Some BadCredentials /\
  shown_outcome
    (after (onSubmit engine_text (login_throws (Some "Service down")) form)
           (fresh ∅))
    = Some Unknown.
Proof.
  split.
  - destruct (thrown_login_classified engine_text
                (login_throws (Some "Invalid login credentials")) form
                (fresh ∅) _ eq_refl) as (_ & H & _).
    apply H.
    + apply mentions_bad_credentials. reflexivity.
    + intros C. apply mentions_unconfirmed in C. discriminate C.
  - destruct (thrown_login_classified engine_text
                (login_throws (Some "Service down")) form
                (fresh ∅) _ eq_refl) as (_ & _ & H & _).
    apply H.
    + reflexivity.
    + intros C. apply mentions_unconfirmed in C. discriminate C.
    + intros C. apply mentions_bad_credentials in C. discriminate C.
Defined.

Lemma unconfirmed_takes_precedence_example :
  shown_outcome
    (after (onSubmit engine_text (login_throws (Some both_phrases)) form)
           (fresh ∅))
    = Some Unverified.
Proof.
  apply (unconfirmed_takes_precedence engine_text
           (login_throws (Some both_phrases)) form (fresh ∅) _ eq_refl).
  - apply mentions_unconfirmed. reflexivity.
  - apply mentions_bad_credentials. reflexivity.
Defined.

(** A thrown [null]: the submission ends by throwing the TypeError, with
    no inline message and no toast, and the busy flag is cleared. *)
Lemma thrown_null_still_clears_busy :
  let r := onSubmit engine_text login_throws_null form
             ({| sessionStorage := ∅; isLoading := true;
                 error := Some "an earlier message"; trace := [] |}
              : Page unit) in
  fst r = Throw (ThrownValue
                   (Text "Cannot read properties of null (reading 'message')"))
  /\ isLoading (snd r) = false /\ error (snd r) = None
  /\ trace (snd r) = [ConsoleError "Login error caught:" ThrownNullish].
Proof. repeat split. Qed.

(** C1 as stated fails: with the empty string stored under the key, the
    key is read and is still there after the run. *)
Lemma empty_hint_survives_read :
  authLoading member = false /\ user member = Some tt /\
  In (GetItem "postLoginRedirect")
     (calls (loginEffect router_ok member) (fresh blank_hint)) /\
  sessionStorage (after (loginEffect router_ok member)
                        (fresh blank_hint))
    !! "postLoginRedirect" <> None.
Proof.
  repeat split.
  - vm_compute. tauto.
  - vm_compute. discriminate.
Qed.

(** C2 as stated fails: with a user present and a hint stored, a run
    while the auth status is still loading navigates nowhere and leaves
    the hint in place. *)
Lemma hint_ignored_while_loading :
  user member_still_loading = Some tt /\
  sessionStorage (fresh orders) !! "postLoginRedirect" = Some "/orders/42" /\
  navigations (calls (loginEffect router_ok member_still_loading)
                     (fresh orders)) <> [("/orders/42", true)] /\
  sessionStorage (after (loginEffect router_ok member_still_loading)
                        (fresh orders))
    !! "postLoginRedirect" <> None.
Proof.
  repeat split; vm_compute; discriminate.
Qed.

(** C5 as stated fails: a thrown message that contains "invalid login
    credentials" does not show BadCredentials when it also contains
    "email not confirmed". *)
Lemma bad_credentials_phrase_overruled :
  message_contains "invalid login credentials"
                   (error_object (Some both_phrases)) /\
  shown_outcome
    (after (onSubmit engine_text (login_throws (Some both_phrases)) form)
           (fresh ∅))
    <> Some BadCredentials /\
  error (after (onSubmit engine_text (login_throws (Some both_phrases)) form)
               (fresh ∅))
    <> Some "Invalid email or password. Please try again.".
Proof.
  split; [apply mentions_bad_credentials; reflexivity|].
  split; vm_compute; discriminate.
Qed.

End Examples.

(** ** The pattern matcher against the language of a pattern *)
Section RegexFacts.

Lemma append_empty_inv (a b : string) : a +:+ b = "" -> a = "" /\ b = "".
Proof. destruct a; [simpl; auto | discriminate]. Qed.

Lemma append_cons (c : ascii) (a b : string) :
  String c a +:+ b = String c (a +:+ b).
Proof. reflexivity. Qed.

Lemma append_empty_r (a : string) : a +:+ "" = a.
Proof.
  induction a as [|c a IH]; [reflexivity|]. now rewrite append_cons, IH.
Qed.

Lemma append_assoc (a b c : string) : (a +:+ b) +:+ c = a +:+ b +:+ c.
Proof.
  induction a as [|x a IH]; [reflexivity|]. now rewrite !append_cons, IH.
Qed.

Lemma Matches_Seq (r1 r2 : regex) (s : string) :
  Matches (Seq r1 r2) s <->
  exists s1 s2, s = s1 +:+ s2 /\ Matches r1 s1 /\ Matches r2 s2.
Proof.
  split.
  - intros H. inversion H; subst. eauto.
  - intros (s1 & s2 & -> & H1 & H2). now constructor.
Qed.

Lemma Matches_Unit (accept : ascii -> bool) (s : string) :
  Matches (Unit accept) s <-> exists c, s = String c "" /\ accept c = true.
Proof.
  split.
  - intros H. inversion H; subst. eauto.
  - intros (c & -> & H). now constructor.
Qed.

Lemma nullable_Matches (r : regex) : nullable r = true <-> Matches r "".
Proof.
  induction r as [| |a|r1 IH1 r2 IH2|r1 IH1 r2 IH2|r IH]; simpl.
  - split; [discriminate | intros H; inversion H].
  - split; [constructor | reflexivity].
  - split; [discriminate | intros H; inversion H].
  - rewrite andb_true_iff, IH1, IH2, Matches_Seq. split.
    + intros [H1 H2]. now exists "", "".
    + intros (s1 & s2 & E & H1 & H2). symmetry in E.
      apply append_empty_inv in E as [-> ->]. auto.
  - rewrite orb_true_iff, IH1, IH2. split.
    + intros [H | H]; [now apply MAltL | now apply MAltR].
    + intros H. inversion H; subst; auto.
  - split; [constructor | reflexivity].
Qed.

(** A non-empty word of [r*] starts with a non-empty word of [r]. *)
Lemma Matches_Star_cons (r : regex) (c : ascii) (s : string) :
  Matches (Star r) (String c s) ->
  exists s1 s2, s = s1 +:+ s2 /\ Matches r (String c s1) /\ Matches (Star r) s2.
Proof.
  intros H. remember (Star r) as r' eqn:Er. remember (String c s) as w eqn:Ew.
  revert s Ew.
  induction H as [| | | | | |r0 s1 s2 H1 _ H2 IH2]; intros t Ew;
    try discriminate.
  injection Er as ->. destruct s1 as [|d s1].
  - now apply IH2.
  - rewrite append_cons in Ew. injection Ew as -> <-. eauto.
Qed.

Lemma deriv_Matches (c : ascii) (r : regex) (s : string) :
  Matches (deriv c r) s <-> Matches r (String c s).
Proof.
  revert s.
  induction r as [| |a|r1 IH1 r2 IH2|r1 IH1 r2 IH2|r IH]; intros s; simpl.
  - split; intros H; inversion H.
  - split; intros H; inversion H.
  - rewrite Matches_Unit. destruct (a c) eqn:Ea.
    + split.
      * intros H. inversion H; subst. eauto.
      * intros (d & [= -> ->] & _). constructor.
    + split.
      * intros H. inversion H.
      * intros (d & [= -> ->] & Hd). congruence.
  - assert (L : Matches (Seq (deriv c r1) r2) s ->
                Matches (Seq r1 r2) (String c s)).
    { rewrite Matches_Seq. intros (s1 & s2 & -> & H1 & H2).
      apply IH1 in H1. exact (MSeq _ _ _ _ H1 H2). }
    assert (R : Matches (Seq r1 r2) (String c s) ->
                Matches (Seq (deriv c r1) r2) s \/
                (Matches r1 "" /\ Matches (deriv c r2) s)).
    { rewrite Matches_Seq. intros (s1 & s2 & E & H1 & H2).
      destruct s1 as [|d s1].
      - right. change (String c s = s2) in E. subst s2.
        split; [exact H1 | now apply IH2].
      - left. rewrite append_cons in E. injection E as <- ->.
        apply Matches_Seq.
        exists s1, s2. split; [reflexivity|]. split; [now apply IH1 | exact H2]. }
    destruct (nullable r1) eqn:En.
    + split.
      * intros H. inversion H; subst; [now apply L|].
        apply nullable_Matches in En.
        match goal with
        | H' : Matches (deriv c r2) s |- _ =>
            apply IH2 in H'; exact (MSeq _ _ _ _ En H')
        end.
      * intros H. destruct (R H) as [H' | [_ H']];
          [now apply MAltL | now apply MAltR].
    + split; [exact L|]. intros H. destruct (R H) as [H' | [H' _]];
        [exact H'|]. apply nullable_Matches in H'. congruence.
  - split.
    + intros H. inversion H; subst;
        [apply MAltL; now apply IH1 | apply MAltR; now apply IH2].
    + intros H. inversion H; subst;
        [apply MAltL; now apply IH1 | apply MAltR; now apply IH2].
  - rewrite Matches_Seq. split.
    + intros (s1 & s2 & -> & H1 & H2). apply IH in H1.
      exact (MStarApp _ _ _ H1 H2).
    + intros H. apply Matches_Star_cons in H as (s1 & s2 & -> & H1 & H2).
      exists s1, s2. split; [reflexivity|]. split; [now apply IH | exact H2].
Qed.

(** The matcher decides membership in the language. *)
Lemma test_Matches (r : regex) (s : string) :
  test r s = true <-> Matches r s.
Proof.
  revert r. induction s as [|c s IH]; intros r; simpl.
  - apply nullable_Matches.
  - rewrite IH. apply deriv_Matches.
Qed.

Lemma Matches_Star_Unit (accept : ascii -> bool) (s : string) :
  Matches (Star (Unit accept)) s <-> all_units accept s = true.
Proof.
  split.
  - intros H. remember (Star (Unit accept)) as r eqn:Er.
    induction H as [| | | | | |r0 s1 s2 H1 _ H2 IH2]; try discriminate.
    + reflexivity.
    + injection Er as ->. apply Matches_Unit in H1 as (c & -> & Hc).
      simpl. rewrite Hc. now apply IH2.
  - induction s as [|c s IH]; simpl.
    + constructor.
    + rewrite andb_true_iff. intros [Hc Hs].
      apply (MStarApp _ (String c "") s); [now constructor | now apply IH].
Qed.

Lemma Matches_Plus_Unit (accept : ascii -> bool) (s : string) :
  Matches (Plus (Unit accept)) s <-> s <> "" /\ all_units accept s = true.
Proof.
  unfold Plus. rewrite Matches_Seq. split.
  - intros (s1 & s2 & -> & H1 & H2).
    apply Matches_Unit in H1 as (c & -> & Hc).
    apply Matches_Star_Unit in H2.
    change (String c "" +:+ s2) with (String c s2).
    split; [discriminate|]. simpl. now rewrite Hc, H2.
  - intros [Hne H]. destruct s as [|c s]; [congruence|].
    simpl in H. apply andb_true_iff in H as [Hc Hs].
    exists (String c ""), s. split; [reflexivity|].
    split; [now constructor | now apply Matches_Star_Unit].
Qed.

Lemma all_units_app (accept : ascii -> bool) (a b : string) :
  all_units accept (a +:+ b) = all_units accept a && all_units accept b.
Proof.
  induction a as [|c a IH]; simpl; [reflexivity|].
  now rewrite IH, andb_assoc.
Qed.

Lemma count_unit_app (c : ascii) (a b : string) :
  count_unit c (a +:+ b) = count_unit c a + count_unit c b.
Proof.
  induction a as [|d a IH]; simpl; [reflexivity|]. rewrite IH. lia.
Qed.

Lemma string_length_app (a b : string) :
  String.length (a +:+ b) = String.length a + String.length b.
Proof.
  induction a as [|d a IH]; simpl; [reflexivity|]. now rewrite IH.
Qed.

(** A string free of "@" has none of it. *)
Lemma count_at_clean (s : string) :
  all_units not_space_or_at s = true -> count_unit "@" s = 0.
Proof.
  induction s as [|c s IH]; cbn [all_units count_unit]; [reflexivity|].
  rewrite andb_true_iff. intros [Hc Hs]. rewrite (IH Hs).
  unfold not_space_or_at in Hc. rewrite negb_true_iff, orb_false_iff in Hc.
  destruct Hc as [_ Hc]. rewrite Ascii.eqb_sym in Hc. now rewrite Hc.
Qed.

Lemma no_space_clean (s : string) :
  all_units not_space_or_at s = true ->
  all_units (fun c => negb (is_space c)) s = true.
Proof.
  induction s as [|c s IH]; cbn [all_units]; [reflexivity|].
  rewrite !andb_true_iff. intros [Hc Hs]. split; [|now apply IH].
  unfold not_space_or_at in Hc. rewrite negb_true_iff, orb_false_iff in Hc.
  now rewrite (proj1 Hc).
Qed.

End RegexFacts.

(** ** The e-mail pattern *)
Section EmailPatternFacts.

(** The parts of an accepted string. *)
Lemma email_pattern_parts (s : string) :
  email_pattern_test s = true ->
  exists l d t : string,
    s = l +:+ "@" +:+ d +:+ "." +:+ t /\
    (l <> "" /\ all_units not_space_or_at l = true) /\
    (d <> "" /\ all_units not_space_or_at d = true) /\
    (t <> "" /\ all_units not_space_or_at t = true).
Proof.
  unfold email_pattern_test, email_pattern. rewrite test_Matches.
  intros H.
  apply Matches_Seq in H as (l & r1 & -> & Hl & H).
  apply Matches_Seq in H as (a & r2 & -> & Ha & H).
  apply Matches_Seq in H as (d & r3 & -> & Hd & H).
  apply Matches_Seq in H as (b & t & -> & Hb & Ht).
  apply Matches_Unit in Ha as (x & -> & Hx). apply Ascii.eqb_eq in Hx.
  apply Matches_Unit in Hb as (y & -> & Hy). apply Ascii.eqb_eq in Hy.
  subst x y. apply Matches_Plus_Unit in Hl, Hd, Ht.
  exists l, d, t. auto.
Qed.

(** X1. The pattern of the e-mail field accepts exactly the strings of the
    form local@domain.tld in which the three parts are non-empty and
    contain neither white space nor "@" (dots are allowed inside every
    part). *)
Theorem email_pattern_shape (s : string) :
  email_pattern_test s = true <->
  exists l d t : string,
    s = l +:+ "@" +:+ d +:+ "." +:+ t /\
    (l <> "" /\ all_units not_space_or_at l = true) /\
    (d <> "" /\ all_units not_space_or_at d = true) /\
    (t <> "" /\ all_units not_space_or_at t = true).
Proof.
  split; [apply email_pattern_parts|].
  unfold email_pattern_test, email_pattern. rewrite test_Matches.
  intros (l & d & t & -> & Hl & Hd & Ht).
  apply Matches_Plus_Unit in Hl, Hd, Ht.
  repeat (apply MSeq; try assumption); now constructor.
Qed.

(** X2. A string the pattern accepts has exactly one "@", no white space
    and at least five code units; so the empty string, a string without
    "@" and a string with a blank are all turned down. *)
Theorem email_pattern_accepts_only (s : string) :
  email_pattern_test s = true ->
  count_unit "@" s = 1 /\
  all_units (fun c => negb (is_space c)) s = true /\
  5 <= String.length s.
Proof.
  intros H. apply email_pattern_parts in H
    as (l & d & t & -> & [Hl Cl] & [Hd Cd] & [Ht Ct]).
  split; [|split].
  - rewrite !count_unit_app.
    rewrite (count_at_clean l Cl), (count_at_clean d Cd), (count_at_clean t Ct).
    reflexivity.
  - rewrite !all_units_app.
    rewrite (no_space_clean l Cl), (no_space_clean d Cd), (no_space_clean t Ct).
    reflexivity.
  - rewrite !string_length_app.
    destruct l; [congruence|]. destruct d; [congruence|].
    destruct t; [congruence|]. simpl. lia.
Qed.

End EmailPatternFacts.

(** ** More on the redirect effect *)
Section RedirectRuns.

Context {User : Type}.

Implicit Types (st : AuthStatus User) (p q : Page User).
Implicit Types (nav : string -> bool -> Completion unit).

(** The three ways a run can go. *)
Lemma loginEffect_outcomes nav st p :
  let k := "postLoginRedirect" in
  let fallback := if isAdmin st then "/admin" else "/dashboard" in
  ((authLoading st = true \/ user st = None) /\
   loginEffect nav st p = (Normal tt, p) /\
   calls (loginEffect nav st) p = []) \/
  ((sessionStorage p !! k = None \/ sessionStorage p !! k = Some "") /\
   fst (loginEffect nav st p) = nav fallback true /\
   sessionStorage (after (loginEffect nav st) p) = sessionStorage p /\
   isLoading (after (loginEffect nav st) p) = isLoading p /\
   error (after (loginEffect nav st) p) = error p /\
   storage_calls (calls (loginEffect nav st) p) = [GetItem k] /\
   navigations (calls (loginEffect nav st) p) = [(fallback, true)]) \/
  (exists h, h <> "" /\ sessionStorage p !! k = Some h /\
   fst (loginEffect nav st p) = nav h true /\
   sessionStorage (after (loginEffect nav st) p) = delete k (sessionStorage p) /\
   isLoading (after (loginEffect nav st) p) = isLoading p /\
   error (after (loginEffect nav st) p) = error p /\
   storage_calls (calls (loginEffect nav st) p) = [GetItem k; RemoveItem k] /\
   navigations (calls (loginEffect nav st) p) = [(h, true)]).
Proof.
  intros k fallback. subst k fallback.
  destruct (authLoading st) eqn:Hl; [|destruct (user st) as [u|] eqn:Hu].
  - left. pose proof (loginEffect_idle nav st p (or_introl Hl)) as R.
    split; [now left|].
    split; [exact R|]. unfold calls, after. rewrite R. apply drop_all.
  - pose proof (loginEffect_user_run nav st u p Hl Hu) as R. cbv zeta in R.
    assert (G : forall evs q0 c,
               loginEffect nav st p = (c, q0) ->
               trace q0 = (trace p ++ evs)%list ->
               calls (loginEffect nav st) p = evs).
    { intros evs q0 c E T. apply calls_grow. unfold after.
      now rewrite E. }
    destruct (sessionStorage p !! "postLoginRedirect") as [[|c h]|] eqn:E.
    + right. left. split; [now right|].
      rewrite (G _ _ _ R eq_refl). unfold after. rewrite R.
      repeat split.
    + right. right. exists (String c h). split; [discriminate|].
      split; [reflexivity|].
      rewrite (G _ _ _ R eq_refl). unfold after. rewrite R.
      repeat split.
    + right. left. split; [now left|].
      rewrite (G _ _ _ R eq_refl). unfold after. rewrite R.
      repeat split.
  - left. pose proof (loginEffect_idle nav st p (or_intror Hu)) as R.
    split; [now right|].
    split; [exact R|]. unfold calls, after. rewrite R. apply drop_all.
Qed.

(** X3. Whatever the status, the router and the page, a run of the effect
    leaves the busy flag, the inline error and every sessionStorage key
    other than postLoginRedirect as they were; the storage afterwards is
    the old one, or the old one without that key. *)
Theorem loginEffect_frame nav st p :
  isLoading (after (loginEffect nav st) p) = isLoading p /\
  error (after (loginEffect nav st) p) = error p /\
  (forall k, k <> "postLoginRedirect" ->
     sessionStorage (after (loginEffect nav st) p) !! k
     = sessionStorage p !! k) /\
  (sessionStorage (after (loginEffect nav st) p) = sessionStorage p \/
   sessionStorage (after (loginEffect nav st) p)
     = delete "postLoginRedirect" (sessionStorage p)).
Proof.
  destruct (loginEffect_outcomes nav st p)
    as [(_ & R & _) | [(_ & _ & Hs & Hl & He & _) | (h & _ & _ & _ & Hs & Hl & He & _)]].
  - unfold after. rewrite R. auto.
  - rewrite Hs, Hl, He. auto.
  - rewrite Hs, Hl, He. repeat split; auto.
    intros k Hk. now apply lookup_delete_ne.
Qed.

(** X4. On every run the effect either makes no storage call and no
    navigation, or reads postLoginRedirect once and navigates exactly once,
    with replace = true and to a non-empty path; a delete happens only for
    that key, only right after the read, and only when the navigation goes
    to the value read. *)
Theorem loginEffect_call_budget nav st p :
  let k := "postLoginRedirect" in
  (storage_calls (calls (loginEffect nav st) p) = [] /\
   navigations (calls (loginEffect nav st) p) = []) \/
  (exists to, to <> "" /\
     storage_calls (calls (loginEffect nav st) p) = [GetItem k] /\
     navigations (calls (loginEffect nav st) p) = [(to, true)]) \/
  (exists to, to <> "" /\ sessionStorage p !! k = Some to /\
     storage_calls (calls (loginEffect nav st) p) = [GetItem k; RemoveItem k] /\
     navigations (calls (loginEffect nav st) p) = [(to, true)]).
Proof.
  intros k. subst k.
  destruct (loginEffect_outcomes nav st p)
    as [(_ & _ & C) | [(_ & _ & _ & _ & _ & Hc & Hn) | (h & Hh & Hk & _ & _ & _ & _ & Hc & Hn)]].
  - left. now rewrite C.
  - right. left. eexists. split; [|split; [exact Hc | exact Hn]].
    now destruct (isAdmin st).
  - right. right. exists h. auto.
Qed.

(** X5. The page a run leaves behind, and the calls it makes, do not
    depend on how the router behaves; the run itself completes the way its
    navigate call completes, and completes normally when it makes none. *)
Theorem loginEffect_router_independent nav nav' st p :
  after (loginEffect nav st) p = after (loginEffect nav' st) p /\
  calls (loginEffect nav st) p = calls (loginEffect nav' st) p /\
  (navigations (calls (loginEffect nav st) p) = [] ->
   fst (loginEffect nav st p) = Normal tt) /\
  (forall to r, navigations (calls (loginEffect nav st) p) = [(to, r)] ->
   fst (loginEffect nav st p) = nav to r).
Proof.
  assert (A : after (loginEffect nav st) p = after (loginEffect nav' st) p).
  { destruct (authLoading st) eqn:Hl; [|destruct (user st) as [u|] eqn:Hu].
    - unfold after.
      now rewrite !(loginEffect_idle _ st p (or_introl Hl)).
    - unfold after. rewrite (loginEffect_user_run nav st u p Hl Hu).
      rewrite (loginEffect_user_run nav' st u p Hl Hu). cbv zeta.
      now destruct (sessionStorage p !! "postLoginRedirect") as [[|c h]|].
    - unfold after.
      now rewrite !(loginEffect_idle _ st p (or_intror Hu)). }
  split; [exact A|]. split; [unfold calls; now rewrite A|].
  destruct (loginEffect_outcomes nav st p)
    as [(_ & R & C) | [(_ & Hf & _ & _ & _ & _ & Hn) | (h & _ & _ & Hf & _ & _ & _ & _ & Hn)]].
  - rewrite R, C. split; [reflexivity | discriminate].
  - rewrite Hn, Hf. split; [discriminate|]. now intros to r [= <- <-].
  - rewrite Hn, Hf. split; [discriminate|]. now intros to r [= <- <-].
Qed.

(** X6. A hint is applied at most once: after a run for a signed-in user
    with loading over, a later such run over the storage it left behind
    (whatever the status, the router and the rest of the page then are)
    navigates to the role-based default and deletes nothing. *)
Theorem hint_applied_once nav nav' st st' (u u' : User) p q :
  authLoading st = false -> user st = Some u ->
  authLoading st' = false -> user st' = Some u' ->
  sessionStorage q = sessionStorage (after (loginEffect nav st) p) ->
  navigations (calls (loginEffect nav' st') q)
    = [(if isAdmin st' then "/admin" else "/dashboard", true)] /\
  storage_calls (calls (loginEffect nav' st') q) = [GetItem "postLoginRedirect"].
Proof.
  intros Hl Hu Hl' Hu' Hq.
  assert (K : sessionStorage q !! "postLoginRedirect" = None \/
              sessionStorage q !! "postLoginRedirect" = Some "").
  { rewrite Hq. unfold after.
    rewrite (loginEffect_user_run nav st u p Hl Hu). cbv zeta.
    destruct (sessionStorage p !! "postLoginRedirect") as [[|c h]|] eqn:E;
      cbn [snd sessionStorage]; auto.
    left. apply lookup_delete_eq. }
  destruct (loginEffect_outcomes nav' st' q)
    as [([I | I] & _) | [(_ & _ & _ & _ & _ & Hc & Hn) | (h & Hh & Hk & _)]].
  - congruence.
  - congruence.
  - now split.
  - destruct K as [K | K]; rewrite K in Hk; congruence.
Qed.

End RedirectRuns.

(** ** More on the handlers and on what is rendered *)
Section HandlerRuns.

Context {User : Type}.
Variable typeErrorText : ThrownError -> string.

Implicit Types (st : AuthStatus User) (p q : Page User).
Implicit Types (err : ThrownError) (data : FormData).
Implicit Types (login : string -> string -> Completion bool).
Implicit Types (nav : string -> bool -> Completion unit).

(** One run of the Google handler. *)
Lemma handleGoogleSignIn_run (g : Completion unit) p :
  handleGoogleSignIn g p =
    match g with
    | Normal _ =>
        (Normal tt,
         {| sessionStorage := sessionStorage p; isLoading := true;
            error := None; trace := trace p |})
    | Throw err =>
        (Normal tt,
         {| sessionStorage := sessionStorage p; isLoading := false;
            error := Some "Failed to sign in with Google. Please try again.";
            trace := trace p ++ [ConsoleError "Google sign-in error:" err] |})
    end.
Proof. destruct g as [[]|err]; reflexivity. Qed.

(** The calls of one submission. *)
Lemma onSubmit_calls login data p :
  calls (onSubmit typeErrorText login data) p =
    match login (email data) (password data) with
    | Normal _ =>
        [ConsoleLog "Login submitted, waiting for user state update..."]
    | Throw err =>
        ConsoleError "Login error caught:" err ::
        match message_mentions err "email not confirmed",
              message_mentions err "invalid login credentials" with
        | Some true, _ =>
            [ToastError "Email not verified. Please check your inbox."
                        (Some 6000%Z)]
        | Some false, Some true =>
            [ToastError "Invalid email or password." None]
        | Some false, Some false =>
            [ToastError "Login failed due to an unexpected error." None]
        | _, _ => []
        end
    end.
Proof.
  apply calls_grow. unfold after.
  destruct (login (email data) (password data)) as [b|err] eqn:H.
  - now rewrite (onSubmit_returned typeErrorText login data p b H).
  - destruct (onSubmit_thrown_cases typeErrorText login data p err H)
      as [(Hr & a & b & Ha & Hb & R) | (Hr & R)]; rewrite R.
    + rewrite Ha, Hb. now destruct a, b.
    + rewrite !message_mentions_readable, Hr. reflexivity.
Qed.

Lemma toLowerCase_empty (m : string) : toLowerCase m = "" <-> m = "".
Proof. destruct m; simpl; split; congruence. Qed.

(** The guard of the source looks at the message only through its
    lower-case form. *)
Lemma message_mentions_lower (m1 m2 phrase : string) :
  toLowerCase m1 = toLowerCase m2 ->
  message_mentions (ThrownValue (Text m1)) phrase
  = message_mentions (ThrownValue (Text m2)) phrase.
Proof.
  intros H. cbn [message_mentions truthy].
  rewrite H. destruct m1, m2; try reflexivity; discriminate.
Qed.

(** The effect reads the page only through [sessionStorage]. *)
Lemma loginEffect_reads_storage_only nav st p q :
  sessionStorage p = sessionStorage q ->
  calls (loginEffect nav st) p = calls (loginEffect nav st) q /\
  fst (loginEffect nav st p) = fst (loginEffect nav st q) /\
  sessionStorage (after (loginEffect nav st) p)
  = sessionStorage (after (loginEffect nav st) q).
Proof.
  intros E.
  destruct (authLoading st) eqn:Hl; [|destruct (user st) as [u|] eqn:Hu].
  - unfold calls, after.
    rewrite !(loginEffect_idle nav st _ (or_introl Hl)), !drop_all. auto.
  - pose proof (loginEffect_user_run nav st u p Hl Hu) as R.
    pose proof (loginEffect_user_run nav st u q Hl Hu) as R'.
    cbv zeta in R, R'. rewrite E in R.
    destruct (sessionStorage q !! "postLoginRedirect") as [[|c h]|];
      (split; [|split]);
      try (unfold after; rewrite R, R'; reflexivity);
      erewrite !calls_grow by (unfold after; rewrite ?R, ?R'; reflexivity);
      reflexivity.
  - unfold calls, after.
    rewrite !(loginEffect_idle nav st _ (or_intror Hu)), !drop_all. auto.
Qed.

Lemma onSubmit_storage login data p :
  sessionStorage (after (onSubmit typeErrorText login data) p)
  = sessionStorage p.
Proof.
  unfold after.
  destruct (login (email data) (password data)) as [b|err] eqn:H.
  - now rewrite (onSubmit_returned typeErrorText login data p b H).
  - destruct (onSubmit_thrown_cases typeErrorText login data p err H)
      as [(_ & a & b & _ & _ & R) | (_ & R)]; now rewrite R.
Qed.

Lemma handleGoogleSignIn_storage (g : Completion unit) p :
  sessionStorage (after (handleGoogleSignIn g) p) = sessionStorage p.
Proof. unfold after. rewrite handleGoogleSignIn_run. now destruct g. Qed.

(** X7. A submission never touches sessionStorage and makes no storage
    or navigation call, on any path. It raises at most one toast: exactly
    one when login throws a value on which the conditions of the catch
    block can be evaluated, none when login returns (a false return sets
    only the inline message) and none when the catch block itself throws. *)
Theorem onSubmit_frame login data p :
  sessionStorage (after (onSubmit typeErrorText login data) p)
    = sessionStorage p /\
  storage_calls (calls (onSubmit typeErrorText login data) p) = [] /\
  navigations (calls (onSubmit typeErrorText login data) p) = [] /\
  length (toasts (calls (onSubmit typeErrorText login data) p)) =
    match login (email data) (password data) with
    | Normal _ => 0
    | Throw err => if readable err then 1 else 0
    end.
Proof.
  split; [apply onSubmit_storage|]. rewrite onSubmit_calls.
  destruct (login (email data) (password data)) as [b|err] eqn:H;
    [repeat split|].
  rewrite !message_mentions_readable.
  destruct (readable err); [|repeat split].
  destruct (truthy (message err) && _); [repeat split|].
  destruct (truthy (message err) && _); repeat split.
Qed.

(** X8. A submission whose login returns true wipes the message of any
    earlier failure: the inline error is empty and no alert is rendered,
    whatever the page showed before, and no toast is raised. *)
Theorem success_clears_stale_error login data p :
  login (email data) (password data) = Normal true ->
  error (after (onSubmit typeErrorText login data) p) = None /\
  alert (render (after (onSubmit typeErrorText login data) p)) = None /\
  toasts (calls (onSubmit typeErrorText login data) p) = [].
Proof.
  intros H. rewrite onSubmit_calls, H. unfold after.
  rewrite (onSubmit_returned typeErrorText login data p true H).
  repeat split.
Qed.

(** X9. The classification of a thrown error is blind to letter case:
    two submissions whose thrown messages agree after lower-casing end
    with the same inline error, the same outcome and the same toast. *)
Theorem thrown_message_case_blind login login' data data' p p'
    (m m' : string) :
  login (email data) (password data) = Throw (ThrownValue (Text m)) ->
  login' (email data') (password data') = Throw (ThrownValue (Text m')) ->
  toLowerCase m = toLowerCase m' ->
  error (after (onSubmit typeErrorText login data) p)
    = error (after (onSubmit typeErrorText login' data') p') /\
  shown_outcome (after (onSubmit typeErrorText login data) p)
    = shown_outcome (after (onSubmit typeErrorText login' data') p') /\
  toasts (calls (onSubmit typeErrorText login data) p)
    = toasts (calls (onSubmit typeErrorText login' data') p').
Proof.
  intros H H' E. rewrite !onSubmit_calls, H, H'. unfold after, shown_outcome.
  rewrite (onSubmit_thrown typeErrorText login data p _ _ _ H
             (message_mentions_lower m m' _ E)
             (message_mentions_lower m m' _ E)).
  rewrite (onSubmit_thrown typeErrorText login' data' p' _ _ _ H'
             eq_refl eq_refl).
  cbn [snd error].
  rewrite !(message_mentions_lower m m' _ E).
  cbn [message_mentions].
  destruct (truthy (Some m') && includes (toLowerCase m') "email not confirmed");
    [|destruct (truthy (Some m') &&
                includes (toLowerCase m') "invalid login credentials")];
    repeat split.
Qed.

(** X10. A thrown value whose message reads as missing, or as the empty
    string, falls through both tests: the outcome is Unknown, with the
    unexpected-error inline message and toast. *)
Theorem messageless_error_is_unknown login data p err :
  login (email data) (password data) = Throw err ->
  err = ThrownValue Missing \/ err = ThrownValue (Text "") ->
  shown_outcome (after (onSubmit typeErrorText login data) p)
    = Some Unknown /\
  error (after (onSubmit typeErrorText login data) p)
    = Some "An unexpected error occurred during login." /\
  toasts (calls (onSubmit typeErrorText login data) p)
    = ["Login failed due to an unexpected error."].
Proof.
  intros H M. rewrite onSubmit_calls, H. unfold after, shown_outcome.
  assert (N : forall phrase, message_mentions err phrase = Some false)
    by (intros phrase; destruct M as [-> | ->]; reflexivity).
  rewrite (onSubmit_thrown typeErrorText login data p err _ _ H
             (N _) (N _)).
  rewrite !N. repeat split.
Qed.

(** X15. When login throws [null] or [undefined], or a value whose
    message is truthy and not a string, the catch block itself throws
    while evaluating its first condition: the submission ends by throwing
    the TypeError, after the console call alone; no inline message is set
    (the earlier one was wiped at the start), no alert is rendered, no
    toast is raised, and the busy flag is cleared. *)
Theorem unreadable_throw_rejects login data p err :
  login (email data) (password data) = Throw err ->
  readable err = false ->
  fst (onSubmit typeErrorText login data p)
    = Throw (typeError typeErrorText err) /\
  calls (onSubmit typeErrorText login data) p
    = [ConsoleError "Login error caught:" err] /\
  error (after (onSubmit typeErrorText login data) p) = None /\
  alert (render (after (onSubmit typeErrorText login data) p)) = None /\
  shown_outcome (after (onSubmit typeErrorText login data) p) = None /\
  isLoading (after (onSubmit typeErrorText login data) p) = false.
Proof.
  intros H Hr. rewrite onSubmit_calls, H. unfold after, shown_outcome.
  rewrite (onSubmit_thrown_unreadable typeErrorText login data p err H Hr).
  rewrite !message_mentions_readable, Hr. repeat split.
Qed.

(** X11. The Google handler never throws, whatever the provider does; it
    never touches sessionStorage, makes no storage or navigation call and
    raises no toast (a failure is shown inline only). *)
Theorem handleGoogleSignIn_frame (g : Completion unit) p :
  fst (handleGoogleSignIn g p) = Normal tt /\
  sessionStorage (after (handleGoogleSignIn g) p) = sessionStorage p /\
  storage_calls (calls (handleGoogleSignIn g) p) = [] /\
  navigations (calls (handleGoogleSignIn g) p) = [] /\
  toasts (calls (handleGoogleSignIn g) p) = [].
Proof.
  assert (C : calls (handleGoogleSignIn g) p =
              match g with
              | Normal _ => []
              | Throw err => [ConsoleError "Google sign-in error:" err]
              end).
  { apply calls_grow. unfold after. rewrite handleGoogleSignIn_run.
    destruct g; cbn [snd trace]; [now rewrite app_nil_r | reflexivity]. }
  rewrite C. unfold after. rewrite handleGoogleSignIn_run.
  destruct g; repeat split.
Qed.

(** X12. After every settled submission the form is usable again: none of
    the Google button, the two inputs and the submit button is disabled,
    the spinner is gone and the label reads "Sign in". The alert shows the
    inline error that was set; there is none exactly when login returned
    true or threw a value on which the catch block itself throws. *)
Theorem form_usable_after_submit login data p :
  let v := render (after (onSubmit typeErrorText login data) p) in
  googleDisabled v = false /\ emailDisabled v = false /\
  passwordDisabled v = false /\ submitDisabled v = false /\
  submitSpinner v = false /\ submitLabel v = "Sign in" /\
  alert v = error (after (onSubmit typeErrorText login data) p) /\
  (alert v = None <->
   login (email data) (password data) = Normal true \/
   exists err, login (email data) (password data) = Throw err /\
               readable err = false).
Proof.
  intros v. subst v. unfold after.
  destruct (login (email data) (password data)) as [b|err] eqn:H.
  - rewrite (onSubmit_returned typeErrorText login data p b H).
    destruct b; repeat split; try discriminate; auto.
    intros [C | (err & C & _)]; discriminate.
  - destruct (onSubmit_thrown_cases typeErrorText login data p err H)
      as [(Hr & a & b & _ & _ & R) | (Hr & R)]; rewrite R.
    + destruct a; [|destruct b]; repeat split; try discriminate;
        intros [C | (err' & [= <-] & C)]; congruence.
    + repeat split. intros _. right. now exists err.
Qed.

(** X13. After the Google handler: when the provider call returned, the
    Google button, both inputs and the submit button are all disabled,
    the spinner shows, the label reads "Signing in..." and any earlier
    alert is gone; when it threw, all four are enabled, the label reads
    "Sign in" and the alert shows the Google failure message. *)
Theorem form_after_google err p :
  (let v := render (after (handleGoogleSignIn (Normal tt)) p) in
   googleDisabled v = true /\ emailDisabled v = true /\
   passwordDisabled v = true /\ submitDisabled v = true /\
   submitSpinner v = true /\ submitLabel v = "Signing in..." /\
   alert v = None) /\
  (let v := render (after (handleGoogleSignIn (Throw err)) p) in
   googleDisabled v = false /\ emailDisabled v = false /\
   passwordDisabled v = false /\ submitDisabled v = false /\
   submitSpinner v = false /\ submitLabel v = "Sign in" /\
   alert v = Some "Failed to sign in with Google. Please try again.").
Proof.
  unfold after. rewrite !handleGoogleSignIn_run. repeat split.
Qed.

(** X14. The redirect made after a submission or after a Google sign-in
    is the one that would have been made before it: the handlers leave the
    stored hint alone, and the effect looks at neither the busy flag nor
    the inline error nor the earlier calls. *)
Theorem redirect_after_handlers nav st login data (g : Completion unit) p :
  calls (loginEffect nav st) (after (onSubmit typeErrorText login data) p)
    = calls (loginEffect nav st) p /\
  calls (loginEffect nav st) (after (handleGoogleSignIn g) p)
    = calls (loginEffect nav st) p /\
  fst (loginEffect nav st (after (onSubmit typeErrorText login data) p))
    = fst (loginEffect nav st p) /\
  fst (loginEffect nav st (after (handleGoogleSignIn g) p))
    = fst (loginEffect nav st p).
Proof.
  pose proof (loginEffect_reads_storage_only nav st
                (after (onSubmit typeErrorText login data) p) p
                (onSubmit_storage login data p)) as (C1 & F1 & _).
  pose proof (loginEffect_reads_storage_only nav st
                (after (handleGoogleSignIn g) p) p
                (handleGoogleSignIn_storage g p)) as (C2 & F2 & _).
  auto.
Qed.

End HandlerRuns.

(** ** The further theorems at concrete pages *)
Section MoreExamples.

Import Sample Sample2.

Lemma email_pattern_accepts_only_example :
  email_pattern_test "ada@example.org" = true /\
  count_unit "@" "ada@example.org" = 1.
Proof.
  split; [reflexivity|].
  exact (proj1 (email_pattern_accepts_only "ada@example.org" eq_refl)).
Defined.

Lemma hint_applied_once_example :
  navigations
    (calls (loginEffect router_ok admin)
           (after (loginEffect router_broken member) (fresh orders)))
  = [("/admin", true)].
Proof.
  exact (proj1 (hint_applied_once router_broken router_ok member admin tt tt
                  (fresh orders)
                  (after (loginEffect router_broken member) (fresh orders))
                  eq_refl eq_refl eq_refl eq_refl eq_refl)).
Defined.

Lemma success_clears_stale_error_example :
  error after_failure <> None /\
  error (after (onSubmit engine_text (login_returns true) form) after_failure)
    = None.
Proof.
  split; [discriminate|].
  exact (proj1 (success_clears_stale_error engine_text (login_returns true)
                  form after_failure eq_refl)).
Defined.

Lemma thrown_message_case_blind_example :
  shown_outcome
    (after (onSubmit engine_text (login_throws (Some shouting)) form)
           (fresh ∅))
  = shown_outcome
      (after (onSubmit engine_text (login_throws (Some whispering)) form)
             after_failure).
Proof.
  refine (proj1 (proj2 (thrown_message_case_blind engine_text
                          (login_throws (Some shouting))
                          (login_throws (Some whispering))
                          form form (fresh ∅) after_failure
                          shouting whispering eq_refl eq_refl _))).
  reflexivity.
Defined.

Lemma messageless_error_is_unknown_example :
  shown_outcome
    (after (onSubmit engine_text (login_throws None) form) (fresh ∅))
  = Some Unknown.
Proof.
  refine (proj1 (messageless_error_is_unknown engine_text (login_throws None)
                   form (fresh ∅) (ThrownValue Missing) eq_refl _)).
  left. reflexivity.
Defined.

Lemma unreadable_throw_rejects_example :
  error after_failure <> None /\
  error (after (onSubmit engine_text login_throws_null form) after_failure)
    = None /\
  isLoading (after (onSubmit engine_text login_throws_null form) after_failure)
    = false.
Proof.
  split; [discriminate|].
  destruct (unreadable_throw_rejects engine_text login_throws_null form
              after_failure ThrownNullish eq_refl eq_refl)
    as (_ & _ & He & _ & _ & Hl).
  now split.
Defined.

End MoreExamples.
